(** * NM_RobotControl: two robots on a table

    A shallow embedding of [src/NM_RobotControl.py] and the properties of
    its trajectory planner, its validators, its orientation codec and its
    [Robot] class.

    Modelling conventions.
    - A numpy vector of two numbers is a pair of [Z]; a 2x2 matrix is a
      pair of rows.
    - The planner's arrays are created by [np.zeros] and hold float64
      values.  From integer inputs every value it stores is an integer:
      the float64 nearest to an integer, to a sum of two such values or
      to a product by 0, 1 or -1 (-0.0 compares equal to 0).  The planner
      is embedded twice.  [plan_traj_f64] rounds as float64 does ([f64]).
      [plan_traj] is the same loop in exact arithmetic.  The two return
      the same arrays as long as the numbers stay below 2^53 in magnitude
      ([small53]), where float64 holds every integer
      ([plan_traj_f64_agrees]); a statement on [plan_traj] that depends
      on the value of a position or on an orientation other than a unit
      vector carries this bound.
    - The attributes of a [Robot] are int64 arrays ([astype(int)],
      [np.array] of Python ints), whose arithmetic wraps around silently:
      the wrap-around is written out ([wrap64]).
    - An [n]x2 array is a list of rows, read with [!!] and written at an
      index with [<[ _ := _ ]>]; an index out of range raises [IndexError]
      in Python, which is [None] in the model ([set_row]).
    - A Python function that may fall off its end returns [None]; a call
      either returns a value or raises ([outcome]).
    - What a function prints is returned as a list of lines beside its
      value ([is_input_valid], [print_posori]).
    - The reading and the splitting of the input file and the plotting
      ([plot_traj]) are not embedded: [is_input_valid] and the methods of
      a [Controller] instance take the parsed values. *)

From Stdlib Require Import ZArith String List Lia Bool DecimalString.
From stdpp Require Import base option list strings.

Local Open Scope string_scope.

(** ** Values *)

Definition vec : Type := Z * Z.
Definition matrix : Type := vec * vec.

Definition vzero : vec := (0, 0)%Z.

(** [a + b] on two vectors. *)
Definition vadd (a b : vec) : vec := (a.1 + b.1, a.2 + b.2)%Z.

(** [np.dot(m, v)] for a 2x2 matrix and a vector of two. *)
Definition dot (m : matrix) (v : vec) : vec :=
  (m.1.1 * v.1 + m.1.2 * v.2, m.2.1 * v.1 + m.2.2 * v.2)%Z.

(** [np.all(v == w)] for two vectors of two. *)
Definition all_eq (v w : vec) : bool := (v.1 =? w.1)%Z && (v.2 =? w.2)%Z.

(** The integers below 2^53 in magnitude: float64 holds each of them, and
    the sum of two of them that is again one of them is exact. *)
Definition small53 (z : Z) : Prop := (Z.abs z < 2 ^ 53)%Z.
Definition small53_vec (v : vec) : Prop := small53 v.1 /\ small53 v.2.

(** The float64 nearest to an integer, ties to the even significand of 53
    bits (the conversion of an int to float64 and the rounding of a
    float64 sum or product of integer values).  Overflow to infinity, from
    2^1024 on, is left out: the inputs are int64 values, from which the
    planner's sums never get there. *)
Definition f64 (z : Z) : Z :=
  let a := Z.abs z in
  if (a <=? 2 ^ 53)%Z then z
  else
    let e := (Z.log2 a - 52)%Z in
    let q := (a / 2 ^ e)%Z in
    let r := (a mod 2 ^ e)%Z in
    let h := (2 ^ (e - 1))%Z in
    let q' := if (h <? r)%Z || ((r =? h)%Z && Z.odd q)
              then (q + 1)%Z else q in
    (Z.sgn z * (q' * 2 ^ e))%Z.

(** The conversion of an int vector to float64. *)
Definition vf64 (v : vec) : vec := (f64 v.1, f64 v.2).

(** [a + b] on two float64 vectors. *)
Definition vaddf (a b : vec) : vec := (f64 (a.1 + b.1), f64 (a.2 + b.2)).

(** [np.dot(m, v)] for an int matrix and a float64 vector. *)
Definition dotf (m : matrix) (v : vec) : vec :=
  (f64 (f64 (f64 m.1.1 * v.1) + f64 (f64 m.1.2 * v.2)),
   f64 (f64 (f64 m.2.1 * v.1) + f64 (f64 m.2.2 * v.2)))%Z.

(** The result of a call: a value, or an exception named by its class. *)
Inductive outcome (A : Type) : Type :=
  | Returns (a : A)
  | Raises (exn : string).
Arguments Returns {A} a.
Arguments Raises {A} exn.

(** The four compass orientations, as the codec writes them. *)
Definition north : vec := (0, 1)%Z.
Definition east : vec := (1, 0)%Z.
Definition south : vec := (0, -1)%Z.
Definition west : vec := (-1, 0)%Z.

Definition canonical (o : vec) : Prop :=
  o = north \/ o = east \/ o = south \/ o = west.

(** ** Controller *)

Module Controller.

Definition rotMatCCW : matrix := ((0, -1), (1, 0))%Z.
Definition rotMatCW : matrix := ((0, 1), (-1, 0))%Z.

(** [orivec2char]: an [if]/[elif] chain without [else]; falling off its
    end returns Python's [None]. *)
Definition orivec2char (vecOri : vec) : outcome (option string) :=
  if all_eq vecOri (0, 1)%Z then Returns (Some "N")
  else if all_eq vecOri (1, 0)%Z then Returns (Some "E")
  else if all_eq vecOri (0, -1)%Z then Returns (Some "S")
  else if all_eq vecOri (-1, 0)%Z then Returns (Some "W")
  else Returns None.

(** [orichar2vec]: the same shape, on the character. *)
Definition orichar2vec (chOri : string) : outcome (option vec) :=
  if String.eqb chOri "N" then Returns (Some (0, 1)%Z)
  else if String.eqb chOri "E" then Returns (Some (1, 0)%Z)
  else if String.eqb chOri "S" then Returns (Some (0, -1)%Z)
  else if String.eqb chOri "W" then Returns (Some (-1, 0)%Z)
  else Returns None.

(** [arr[i] = v]: [None] stands for Python's [IndexError]. *)
Definition set_row (arr : list vec) (i : nat) (v : vec) : option (list vec) :=
  if decide (i < length arr) then Some (<[i := v]> arr) else None.

(** One iteration of the loop of [plan_traj], at index [i]. *)
Definition plan_step (arrCmd : list string) (i : nat)
    (st : list vec * list vec) : option (list vec * list vec) :=
  let '(arrPos, arrOri) := st in
  c ← arrCmd !! i;
  if String.eqb c "L" then
    p ← arrPos !! i;
    arrPos ← set_row arrPos (i + 1) p;
    o ← arrOri !! i;
    arrOri ← set_row arrOri (i + 1) (dot rotMatCCW o);
    Some (arrPos, arrOri)
  else if String.eqb c "R" then
    p ← arrPos !! i;
    arrPos ← set_row arrPos (i + 1) p;
    o ← arrOri !! i;
    arrOri ← set_row arrOri (i + 1) (dot rotMatCW o);
    Some (arrPos, arrOri)
  else
    p ← arrPos !! i;
    o ← arrOri !! i;
    arrPos ← set_row arrPos (i + 1) (vadd p o);
    o ← arrOri !! i;
    arrOri ← set_row arrOri (i + 1) o;
    Some (arrPos, arrOri).

(** [for i in idx: st = body i st], stopping at the first failure. *)
Fixpoint for_in {S : Type} (idx : list nat) (body : nat -> S -> option S)
    (st : S) : option S :=
  match idx with
  | [] => Some st
  | i :: idx' =>
      match body i st with
      | Some st' => for_in idx' body st'
      | None => None
      end
  end.

Definition plan_traj (startPos startOri : vec) (arrCmd : list string)
    : option (list vec * list vec) :=
  let arrPos := replicate (length arrCmd + 1) vzero in
  let arrOri := replicate (length arrCmd + 1) vzero in
  arrPos ← set_row arrPos 0 startPos;
  arrOri ← set_row arrOri 0 startOri;
  for_in (seq 0 (length arrCmd)) (plan_step arrCmd) (arrPos, arrOri).

(** The same loop on float64 rows. *)
Definition plan_step_f64 (arrCmd : list string) (i : nat)
    (st : list vec * list vec) : option (list vec * list vec) :=
  let '(arrPos, arrOri) := st in
  c ← arrCmd !! i;
  if String.eqb c "L" then
    p ← arrPos !! i;
    arrPos ← set_row arrPos (i + 1) p;
    o ← arrOri !! i;
    arrOri ← set_row arrOri (i + 1) (dotf rotMatCCW o);
    Some (arrPos, arrOri)
  else if String.eqb c "R" then
    p ← arrPos !! i;
    arrPos ← set_row arrPos (i + 1) p;
    o ← arrOri !! i;
    arrOri ← set_row arrOri (i + 1) (dotf rotMatCW o);
    Some (arrPos, arrOri)
  else
    p ← arrPos !! i;
    o ← arrOri !! i;
    arrPos ← set_row arrPos (i + 1) (vaddf p o);
    o ← arrOri !! i;
    arrOri ← set_row arrOri (i + 1) o;
    Some (arrPos, arrOri).

Definition plan_traj_f64 (startPos startOri : vec) (arrCmd : list string)
    : option (list vec * list vec) :=
  let arrPos := replicate (length arrCmd + 1) vzero in
  let arrOri := replicate (length arrCmd + 1) vzero in
  arrPos ← set_row arrPos 0 (vf64 startPos);
  arrOri ← set_row arrOri 0 (vf64 startOri);
  for_in (seq 0 (length arrCmd)) (plan_step_f64 arrCmd) (arrPos, arrOri).

Definition is_on_table (pos tableSize : vec) : bool :=
  (pos.1 <=? tableSize.1)%Z && (pos.2 <=? tableSize.2)%Z
  && (pos.1 >=? 0)%Z && (pos.2 >=? 0)%Z.

Definition is_posin_valid (strPos : list string) : bool := true.

Definition is_cmdin_valid (cmd : list string) : bool := true.

Definition is_no_collisions (arrPos1 arrPos2 : list vec) : bool := true.

End Controller.

(** ** Robot *)

(** int64 arithmetic, as numpy does it on arrays: silent wrap-around. *)
Definition int64 (z : Z) : Prop := (- 2 ^ 63 <= z < 2 ^ 63)%Z.
Definition wrap64 (z : Z) : Z := ((z + 2 ^ 63) mod 2 ^ 64 - 2 ^ 63)%Z.
Definition add64 (a b : Z) : Z := wrap64 (a + b).
Definition mul64 (a b : Z) : Z := wrap64 (a * b).

Definition vadd64 (a b : vec) : vec := (add64 a.1 b.1, add64 a.2 b.2).

Definition dot64 (m : matrix) (v : vec) : vec :=
  (add64 (mul64 m.1.1 v.1) (mul64 m.1.2 v.2),
   add64 (mul64 m.2.1 v.1) (mul64 m.2.2 v.2)).

Definition int64_vec (v : vec) : Prop := int64 v.1 /\ int64 v.2.

Module Robot.

(** The attributes of an instance, as the class docstring declares them:
    two int vectors. *)
Record robot : Type := { pos : vec; ori : vec }.

(** Each method returns the instance after the call and the call's value. *)
Definition move (self : robot) : robot * bool :=
  ({| pos := vadd64 (pos self) (ori self); ori := ori self |}, true).

Definition rotate (self : robot) (strRot : string) : robot * bool :=
  if String.eqb strRot "L" then
    ({| pos := pos self; ori := dot64 Controller.rotMatCCW (ori self) |}, true)
  else
    ({| pos := pos self; ori := dot64 Controller.rotMatCW (ori self) |}, true).

Definition receive_cmd (self : robot) (strCmd : string) : robot * bool :=
  let self :=
    if String.eqb strCmd "L" || String.eqb strCmd "R"
    then (rotate self strCmd).1
    else (move self).1 in
  (self, true).

(** The states of a robot that is handed the commands one at a time, the
    way [send_command] feeds each robot: the state before the first
    command, then the state after each one. *)
Fixpoint session (self : robot) (cmds : list string) : list robot :=
  match cmds with
  | [] => [self]
  | c :: cmds' => self :: session (receive_cmd self c).1 cmds'
  end.

End Robot.

(** ** The planner, read as a transition function *)

(** A pose is a position and an orientation. *)
Abbreviation pose := (vec * vec)%type.

(** What one iteration of [plan_traj] computes for row [i + 1] from row
    [i] and command [c]. *)
Definition transition (c : string) (s : pose) : pose :=
  if String.eqb c "L" then (s.1, dot Controller.rotMatCCW s.2)
  else if String.eqb c "R" then (s.1, dot Controller.rotMatCW s.2)
  else (vadd s.1 s.2, s.2).

Fixpoint poses (s : pose) (cmds : list string) : list pose :=
  match cmds with
  | [] => [s]
  | c :: cmds' => s :: poses (transition c s) cmds'
  end.

(** The same reading of [plan_traj_f64]. *)
Definition transitionf (c : string) (s : pose) : pose :=
  if String.eqb c "L" then (s.1, dotf Controller.rotMatCCW s.2)
  else if String.eqb c "R" then (s.1, dotf Controller.rotMatCW s.2)
  else (vaddf s.1 s.2, s.2).

Fixpoint posesf (s : pose) (cmds : list string) : list pose :=
  match cmds with
  | [] => [s]
  | c :: cmds' => s :: posesf (transitionf c s) cmds'
  end.

(** The loop invariant of [plan_traj] after the iterations below [k]: both arrays have
    their full length and their rows up to [k] are those of [poses]. *)
Definition rows_upto (T : list pose) (k : nat) (st : list vec * list vec)
    : Prop :=
  length st.1 = length T /\ length st.2 = length T /\
  forall j, j <= k -> st.1 !! j = fst <$> T !! j /\ st.2 !! j = snd <$> T !! j.

(** The collision check as the spec words it: no index within both
    trajectories at which the two positions are equal. *)
Definition noCollision_spec (A B : list vec) : Prop :=
  ~ exists i p, i < Nat.min (length A) (length B)
                /\ A !! i = Some p /\ B !! i = Some p.

(** The pose after the last command. *)
Definition final_pose (s : pose) (cmds : list string) : pose :=
  foldl (fun s c => transition c s) s cmds.

(** ** The checks of a scenario *)

Definition msg_robot1_off : string := "Robot 1 goes off the table. Aborting...".
Definition msg_robot2_off : string := "Robot 2 goes off the table. Aborting...".

(** The literal is continued on the next source line, whose indentation
    is part of it. *)
Definition msg_collision : string :=
  "The input commands result in a collision of the two robots                   . Aborting...".

(** [for i in range(0, pos.shape[0]): if not(is_on_table(pos[i, :],
    tableSize)): ... return False]: [Some false] when the loop returns,
    [Some true] when it runs to its end, [None] for an [IndexError]. *)
Fixpoint on_table_loop (idx : list nat) (arrPos : list vec) (tableSize : vec)
    : option bool :=
  match idx with
  | [] => Some true
  | i :: idx' =>
      p ← arrPos !! i;
      if negb (Controller.is_on_table p tableSize) then Some false
      else on_table_loop idx' arrPos tableSize
  end.

(** [is_input_valid] after the parsing of the file: the table size, the
    two start positions, the two start orientations that [orichar2vec]
    returned (vectors: the call on a character that yields [None] is not
    covered) and the two command arrays are the arguments.  The result is
    the list of the lines printed and the value returned.  The
    trajectories are those of [plan_traj], in exact arithmetic: the
    statements that depend on the value of a position carry the bound
    2^53 on the table size. *)
Definition is_input_valid (tableSize pos1_0 ori1_0 pos2_0 ori2_0 : vec)
    (cmd1 cmd2 : list string) : option (list string * bool) :=
  '(pos1, ori1) ← Controller.plan_traj pos1_0 ori1_0 cmd1;
  '(pos2, ori2) ← Controller.plan_traj pos2_0 ori2_0 cmd2;
  on1 ← on_table_loop (seq 0 (length pos1)) pos1 tableSize;
  if negb on1 then Some ([msg_robot1_off], false)
  else
    on2 ← on_table_loop (seq 0 (length pos2)) pos2 tableSize;
    if negb on2 then Some ([msg_robot2_off], false)
    else if negb (Controller.is_no_collisions pos1 pos2)
         then Some ([msg_collision], false)
         else Some ([], true).

(** ** The methods of a [Controller] instance *)

(** A string stored into an array of dtype [str] created without a
    length ('<U1') keeps its first character only. *)
Definition trunc1 (s : string) : string :=
  match s with
  | EmptyString => EmptyString
  | String a _ => String a EmptyString
  end.

(** [np.empty(n, dtype=str)]: [n] strings of at most one character whose
    content is not initialised; [mem i] is what the memory holds at
    entry [i]. *)
Definition np_empty_str (n : nat) (mem : nat -> string) : list string :=
  (fun i => trunc1 (mem i)) <$> seq 0 n.

(** [arr[0:len(src)] = src], for a source that fits in the array, as it
    does in [send_command]; [None] otherwise. *)
Definition assign_prefix (arr src : list string) : option (list string) :=
  if decide (length src <= length arr)
  then Some ((trunc1 <$> src) ++ drop (length src) arr)%list
  else None.

(** The truth value of a string: not empty. *)
Definition truthy (s : string) : bool := negb (String.eqb s "").

(** [{:d}] on an integer. *)
Definition format_d (z : Z) : string := NilZero.string_of_int (Z.to_int z).

Module Instance.

Record controller : Type := {
  tableSize : vec;
  robot1 : Robot.robot;
  robot2 : Robot.robot;
  cmd1 : list string;
  cmd2 : list string
}.

(** The loop of [send_command] over the two padded arrays: the two robots
    after it and the value returned. *)
Fixpoint send_loop (idx : list nat) (arr1 arr2 : list string)
    (r1 r2 : Robot.robot) : option (Robot.robot * Robot.robot * bool) :=
  match idx with
  | [] => Some (r1, r2, true)
  | i :: idx' =>
      c1 ← arr1 !! i;
      let '(r1, ok1) :=
        if truthy c1 then Robot.receive_cmd r1 c1 else (r1, true) in
      if negb ok1 then Some (r1, r2, false)
      else
        c2 ← arr2 !! i;
        let '(r2, ok2) :=
          if truthy c2 then Robot.receive_cmd r2 c2 else (r2, true) in
        if negb ok2 then Some (r1, r2, false)
        else send_loop idx' arr1 arr2 r1 r2
  end.

(** [send_command]: the instance after the call and the value returned;
    [mem1] and [mem2] are the contents of the two arrays that [np.empty]
    hands out. *)
Definition send_command (self : controller) (mem1 mem2 : nat -> string)
    : option (controller * bool) :=
  let newlen := Nat.max (length (cmd1 self)) (length (cmd2 self)) in
  arr1 ← assign_prefix (np_empty_str newlen mem1) (cmd1 self);
  arr2 ← assign_prefix (np_empty_str newlen mem2) (cmd2 self);
  '(r1, r2, ok) ← send_loop (seq 0 newlen) arr1 arr2
                    (robot1 self) (robot2 self);
  Some ({| tableSize := tableSize self; robot1 := r1; robot2 := r2;
           cmd1 := cmd1 self; cmd2 := cmd2 self |}, ok).

(** The line that [print_posori] prints for robot [k]. *)
Definition posori_line (k : string) (r : Robot.robot) (strOri : string)
    : string :=
  "The position and orientation of robot " ++ k ++ " are: "
  ++ format_d (Robot.pos r).1 ++ " " ++ format_d (Robot.pos r).2
  ++ " " ++ strOri.

(** [print_posori]: the lines printed, and how the call ends.  [{:s}]
    applied to Python's [None] raises [TypeError]. *)
Definition print_posori (self : controller) : list string * outcome unit :=
  match Controller.orivec2char (Robot.ori (robot1 self)),
        Controller.orivec2char (Robot.ori (robot2 self)) with
  | Raises exn, _ => ([], Raises exn)
  | Returns _, Raises exn => ([], Raises exn)
  | Returns strOri1, Returns strOri2 =>
      match strOri1 with
      | None => ([], Raises "TypeError")
      | Some s1 =>
          match strOri2 with
          | None => ([posori_line "1" (robot1 self) s1], Raises "TypeError")
          | Some s2 =>
              ([posori_line "1" (robot1 self) s1;
                posori_line "2" (robot2 self) s2], Returns tt)
          end
      end
  end.

End Instance.

(** The robot after it has received all the commands of a list. *)
Definition session_end (self : Robot.robot) (cmds : list string)
    : Robot.robot :=
  foldl (fun r c => (Robot.receive_cmd r c).1) self cmds.

(** Closes a goal [small53 _], [small53_vec _] or [Forall small53_vec _] on
    explicit numbers. *)
Ltac small53_tac :=
  repeat first [apply Forall_nil_2 | apply Forall_cons_2 | split];
  unfold small53; simpl; lia.

(** * Lemmas on the planner *)

Section Planner.

Import Controller.

Lemma poses_length s cmds : length (poses s cmds) = length cmds + 1.
Proof.
  revert s. induction cmds as [|c cmds IH]; intros s; simpl; [done|].
  by rewrite IH.
Qed.

Lemma poses_lookup_0 s cmds : poses s cmds !! 0 = Some s.
Proof. by destruct cmds. Qed.

Lemma poses_lookup_S s cmds i c q :
  cmds !! i = Some c -> poses s cmds !! i = Some q ->
  poses s cmds !! (i + 1) = Some (transition c q).
Proof.
  revert s i. induction cmds as [|c' cmds IH]; intros s i Hc Hq; [done|].
  destruct i as [|i]; simpl in *.
  - injection Hc as ->. injection Hq as ->. apply poses_lookup_0.
  - by apply IH.
Qed.


Lemma set_row_Some arr i v :
  i < length arr -> set_row arr i v = Some (<[i := v]> arr).
Proof. intros Hi. unfold set_row. by rewrite decide_True. Qed.

(** One iteration writes the transition of row [i] into row [i + 1]. *)
Lemma plan_step_transition cmds i c P O p o :
  cmds !! i = Some c -> P !! i = Some p -> O !! i = Some o ->
  i + 1 < length P -> i + 1 < length O ->
  plan_step cmds i (P, O) =
  Some (<[i + 1 := (transition c (p, o)).1]> P,
        <[i + 1 := (transition c (p, o)).2]> O).
Proof.
  intros Hc Hp Ho HP HO. unfold plan_step, transition. rewrite Hc. simpl.
  destruct (String.eqb c "L"); [|destruct (String.eqb c "R")];
    rewrite Hp; simpl; rewrite ?Ho; simpl;
    rewrite !set_row_Some by done; simpl; rewrite ?Ho; simpl;
    rewrite ?set_row_Some by done; done.
Qed.

Lemma rows_upto_step s cmds k P O :
  k < length cmds -> rows_upto (poses s cmds) k (P, O) ->
  exists st, plan_step cmds k (P, O) = Some st
             /\ rows_upto (poses s cmds) (S k) st.
Proof.
  intros Hk (HP & HO & Hrows). simpl in HP, HO.
  pose proof (poses_length s cmds) as Hlen.
  destruct (lookup_lt_is_Some_2 cmds k Hk) as [c Hc].
  destruct (lookup_lt_is_Some_2 (poses s cmds) k ltac:(lia)) as [[p o] Hq].
  destruct (Hrows k (le_n k)) as [Hp Ho]. cbn [fst snd] in Hp, Ho.
  rewrite Hq in Hp, Ho. simpl in Hp, Ho.
  pose proof (poses_lookup_S _ _ _ _ _ Hc Hq) as Hnext.
  eexists. split.
  { apply (plan_step_transition cmds k c P O p o); auto; lia. }
  split; [|split]; simpl; rewrite ?length_insert; auto.
  intros j Hj. destruct (decide (j = k + 1)) as [->|Hne].
  - rewrite !list_lookup_insert_eq by lia. by rewrite Hnext.
  - rewrite !list_lookup_insert_ne by lia. apply Hrows. lia.
Qed.

Lemma rows_upto_loop s cmds m : forall k st,
  k + m = length cmds -> rows_upto (poses s cmds) k st ->
  exists st', for_in (seq k m) (plan_step cmds) st = Some st'
              /\ rows_upto (poses s cmds) (length cmds) st'.
Proof.
  induction m as [|m IH]; intros k [P O] Hkm Hinv; cbn [seq for_in].
  - exists (P, O). split; [done|]. by replace (length cmds) with k by lia.
  - destruct (rows_upto_step s cmds k P O) as (st & -> & Hst); [lia|done|].
    apply IH; [lia|done].
Qed.

Lemma rows_upto_all T P O :
  rows_upto T (length T - 1) (P, O) -> P = T.*1 /\ O = T.*2.
Proof.
  intros (HP & HO & Hrows). simpl in *.
  split; apply list_eq; intros j; rewrite list_lookup_fmap;
    (destruct (decide (j < length T)) as [Hj|Hj];
     [apply Hrows; lia
     |rewrite !lookup_ge_None_2 by lia; done]).
Qed.

(** [plan_traj] always returns, and returns the rows of [poses]. *)
Lemma plan_traj_poses p o cmds :
  plan_traj p o cmds = Some ((poses (p, o) cmds).*1, (poses (p, o) cmds).*2).
Proof.
  unfold plan_traj.
  rewrite !set_row_Some by (rewrite length_replicate; lia). simpl.
  pose proof (poses_length (p, o) cmds) as Hlen.
  destruct (rows_upto_loop (p, o) cmds (length cmds) 0
              (<[0 := p]> (replicate (length cmds + 1) vzero),
               <[0 := o]> (replicate (length cmds + 1) vzero)))
    as ([P O] & -> & Hinv); [lia| |].
  - split; [|split]; simpl; rewrite ?length_insert, ?length_replicate; auto.
    intros j Hj. replace j with 0 by lia.
    rewrite !list_lookup_insert_eq by (rewrite length_replicate; lia).
    by rewrite poses_lookup_0.
  - destruct (rows_upto_all (poses (p, o) cmds) P O) as [-> ->]; [|done].
    by replace (length (poses (p, o) cmds) - 1) with (length cmds) by lia.
Qed.

End Planner.

(** * The transition rules of the planner *)

Section TransitionRules.

Import Controller.

Lemma transition_other c s :
  c <> "L" -> c <> "R" -> transition c s = (vadd s.1 s.2, s.2).
Proof.
  intros HL HR. unfold transition.
  apply String.eqb_neq in HL, HR. by rewrite HL, HR.
Qed.



End TransitionRules.



(** * The validators *)

Section Validators.

Import Controller.

(** C3. [is_no_collisions] answers true on every pair of trajectories,
    also on the trajectories of two robots that meet: one starts at (1,2)
    facing E, the other at (3,2) facing W, both move once and both are at
    (2,2) at step 1, a shared position at the same step index, for which
    the check as the spec words it does not hold. *)
Theorem is_no_collisions_misses_shared_position :
  (forall A B : list vec, is_no_collisions A B = true)
  /\ exists P1 O1 P2 O2,
       plan_traj (1, 2)%Z east ["M"] = Some (P1, O1)
       /\ plan_traj (3, 2)%Z west ["M"] = Some (P2, O2)
       /\ P1 !! 1 = Some (2, 2)%Z /\ P2 !! 1 = Some (2, 2)%Z
       /\ ~ noCollision_spec P1 P2
       /\ is_no_collisions P1 P2 = true.
Proof.
  split; [done|].
  eexists _, _, _, _. split; [vm_compute; reflexivity|].
  split; [vm_compute; reflexivity|].
  split; [done|]. split; [done|]. split; [|done].
  intros Hno. apply Hno. exists 1, (2, 2)%Z. simpl. split; [lia|done].
Qed.

(** C4. [is_on_table] is true exactly when 0 <= x <= width and
    0 <= y <= height, bounds included; the robot at (0,0) facing S that
    moves once is at (0,-1), which is off a table of bounds (5,5). *)
Theorem is_on_table_iff (pos tableSize : vec) :
  (is_on_table pos tableSize = true
   <-> (0 <= pos.1 <= tableSize.1 /\ 0 <= pos.2 <= tableSize.2)%Z)
  /\ exists P O, plan_traj (0, 0)%Z south ["M"] = Some (P, O)
       /\ P !! 1 = Some (0, -1)%Z
       /\ is_on_table (0, -1)%Z (5, 5)%Z = false.
Proof.
  split.
  - unfold is_on_table. rewrite !andb_true_iff, !Z.leb_le, !Z.geb_le. lia.
  - eexists _, _. split; [vm_compute; reflexivity|]. by split.
Qed.

End Validators.

Lemma is_on_table_iff_witness :
  Controller.is_on_table (5, 0)%Z (5, 5)%Z = true.
Proof.
  apply (proj1 (is_on_table_iff (5, 0)%Z (5, 5)%Z)). simpl. lia.
Defined.

(** * The orientation codec *)

Section Codec.

Import Controller.

(** What [orichar2vec] does on every string: it maps 'N', 'E', 'S', 'W'
    to (0,1), (1,0), (0,-1), (-1,0); on every other string it returns
    Python's [None]; it raises on no input, and it returns a vector on
    these four only. *)
Lemma orichar2vec_table (chOri : string) :
  orichar2vec "N" = Returns (Some (0, 1)%Z)
  /\ orichar2vec "E" = Returns (Some (1, 0)%Z)
  /\ orichar2vec "S" = Returns (Some (0, -1)%Z)
  /\ orichar2vec "W" = Returns (Some (-1, 0)%Z)
  /\ (chOri <> "N" -> chOri <> "E" -> chOri <> "S" -> chOri <> "W" ->
      orichar2vec chOri = Returns None)
  /\ (forall exn, orichar2vec chOri <> Raises exn)
  /\ (forall v, orichar2vec chOri = Returns (Some v) ->
      chOri = "N" \/ chOri = "E" \/ chOri = "S" \/ chOri = "W").
Proof.
  do 4 (split; [reflexivity|]). unfold orichar2vec.
  destruct (String.eqb_spec chOri "N") as [->|HN]; [by repeat split; auto|].
  destruct (String.eqb_spec chOri "E") as [->|HE]; [by repeat split; auto|].
  destruct (String.eqb_spec chOri "S") as [->|HS]; [by repeat split; auto|].
  destruct (String.eqb_spec chOri "W") as [->|HW]; [by repeat split; auto 6|].
  by repeat split.
Qed.

(** C5. [orichar2vec] must map 'N', 'E', 'S', 'W' to the four unit
    vectors and fail with [InvalidOrientationError] on every other
    character.  On "X", which is none of the four, the call instead
    returns Python's [None] and raises nothing, where its docstring
    announces a vector of two ints. *)
Lemma orichar2vec_X_returns_None :
  "X" <> "N" /\ "X" <> "E" /\ "X" <> "S" /\ "X" <> "W"
  /\ orichar2vec "X" = Returns None
  /\ orichar2vec "X" <> Raises "InvalidOrientationError".
Proof. by repeat split. Qed.

(** C8. On each of the four compass orientations, [orivec2char] returns a
    character from which [orichar2vec] returns that orientation. *)
Theorem codec_round_trip (o : vec) :
  canonical o ->
  exists ch, orivec2char o = Returns (Some ch)
             /\ orichar2vec ch = Returns (Some o).
Proof.
  intros [-> | [-> | [-> | ->]]];
    [exists "N" | exists "E" | exists "S" | exists "W"]; by split.
Qed.

End Codec.

Lemma orichar2vec_table_witness :
  Controller.orichar2vec "north" = Returns None.
Proof.
  destruct (orichar2vec_table "north") as (_ & _ & _ & _ & Hother & _).
  apply Hother; discriminate.
Defined.

Lemma codec_round_trip_witness :
  exists ch, Controller.orivec2char south = Returns (Some ch)
             /\ Controller.orichar2vec ch = Returns (Some south).
Proof.
  apply (codec_round_trip south). right. right. left. reflexivity.
Defined.

(** * Rotations and the orientation invariant *)

Section Orientation.

Import Controller.

Lemma dot_canonical m o :
  m = rotMatCCW \/ m = rotMatCW -> canonical o -> canonical (dot m o).
Proof.
  unfold canonical.
  intros [-> | ->] [-> | [-> | [-> | ->]]]; vm_compute; auto.
Qed.

Lemma dot64_canonical m o :
  m = rotMatCCW \/ m = rotMatCW -> canonical o -> canonical (dot64 m o).
Proof.
  unfold canonical.
  intros [-> | ->] [-> | [-> | [-> | ->]]]; vm_compute; auto.
Qed.

Lemma transition_canonical c s : canonical s.2 -> canonical (transition c s).2.
Proof.
  intros Hs. unfold transition.
  destruct (String.eqb c "L"); [|destruct (String.eqb c "R")]; simpl;
    auto using dot_canonical.
Qed.

Lemma poses_canonical cmds : forall s,
  canonical s.2 -> Forall (fun q : pose => canonical q.2) (poses s cmds).
Proof.
  induction cmds as [|c cmds IH]; intros s Hs; simpl.
  - by constructor.
  - constructor; [done|]. apply IH. by apply transition_canonical.
Qed.

Lemma receive_cmd_canonical r c :
  canonical (Robot.ori r) -> canonical (Robot.ori (Robot.receive_cmd r c).1).
Proof.
  intros Hr. unfold Robot.receive_cmd, Robot.rotate, Robot.move.
  destruct (String.eqb c "L" || String.eqb c "R"); simpl; [|done].
  destruct (String.eqb c "L"); simpl; auto using dot64_canonical.
Qed.

Lemma session_canonical cmds : forall r,
  canonical (Robot.ori r) ->
  Forall (fun r' => canonical (Robot.ori r')) (Robot.session r cmds).
Proof.
  induction cmds as [|c cmds IH]; intros r Hr; simpl.
  - by constructor.
  - constructor; [done|]. apply IH. by apply receive_cmd_canonical.
Qed.

(** C7. From a start pose whose orientation is one of (0,1), (1,0),
    (0,-1), (-1,0), every row of the orientation array that [plan_traj]
    returns is one of these four, and so is the orientation of a [Robot]
    before and after each of the commands it receives. *)
Theorem orientation_stays_canonical (p o : vec) (r : Robot.robot)
    (cmds : list string) :
  canonical o -> canonical (Robot.ori r) ->
  (exists P O, plan_traj p o cmds = Some (P, O) /\ Forall canonical O)
  /\ Forall (fun r' => canonical (Robot.ori r')) (Robot.session r cmds).
Proof.
  intros Ho Hr. split; [|by apply session_canonical].
  eexists _, _. split; [apply plan_traj_poses|].
  apply Forall_fmap. by apply (poses_canonical cmds (p, o)).
Qed.

Lemma wrap64_id z : int64 z -> wrap64 z = z.
Proof.
  unfold int64, wrap64. intros Hz.
  rewrite Z.mod_small by lia. lia.
Qed.






End Orientation.

Lemma orientation_stays_canonical_witness :
  (exists P O, Controller.plan_traj (1, 2)%Z west ["L"; "M"; "R"] = Some (P, O)
               /\ Forall canonical O)
  /\ Forall (fun r' => canonical (Robot.ori r'))
       (Robot.session {| Robot.pos := (1, 2)%Z; Robot.ori := west |}
          ["L"; "M"; "R"]).
Proof.
  apply (orientation_stays_canonical (1, 2)%Z west
           {| Robot.pos := (1, 2)%Z; Robot.ori := west |} ["L"; "M"; "R"]).
  - right. right. right. reflexivity.
  - right. right. right. reflexivity.
Defined.


(** * Commands outside 'L' and 'R' *)

Section OtherCommands.

Import Controller.


End OtherCommands.


(** * The reference scenario *)

Section Scenario.

Import Controller.

(** C6. On the table of bounds (5,5), the robot that starts at (1,2)
    facing 'N' and executes L M L M L M L M M ends at (1,3) facing 'N',
    in the planned trajectory and as a [Robot]. *)
Theorem reference_scenario :
  orichar2vec "N" = Returns (Some north)
  /\ (exists P O,
        plan_traj (1, 2)%Z north ["L"; "M"; "L"; "M"; "L"; "M"; "L"; "M"; "M"]
        = Some (P, O)
        /\ last P = Some (1, 3)%Z /\ last O = Some north
        /\ Forall (fun q => is_on_table q (5, 5)%Z = true) P)
  /\ last (Robot.session {| Robot.pos := (1, 2)%Z; Robot.ori := north |}
             ["L"; "M"; "L"; "M"; "L"; "M"; "L"; "M"; "M"])
     = Some {| Robot.pos := (1, 3)%Z; Robot.ori := north |}
  /\ orivec2char north = Returns (Some "N").
Proof.
  split; [reflexivity|]. split; [|split; [vm_compute; reflexivity|reflexivity]].
  eexists _, _. split; [vm_compute; reflexivity|].
  split; [reflexivity|]. split; [reflexivity|].
  repeat constructor.
Qed.

End Scenario.

(** * Composition of trajectories *)

Section PlannerMore.

Import Controller.

Lemma poses_last s cmds : last (poses s cmds) = Some (final_pose s cmds).
Proof.
  revert s. induction cmds as [|c cmds IH]; intros s; [done|].
  simpl. rewrite <- IH. by destruct cmds.
Qed.

Lemma poses_app s cmds1 cmds2 :
  poses s (cmds1 ++ cmds2)%list
  = (poses s cmds1 ++ tail (poses (final_pose s cmds1) cmds2))%list.
Proof.
  revert s. induction cmds1 as [|c cmds1 IH]; intros s; simpl.
  - by destruct cmds2.
  - by rewrite IH.
Qed.

(** X1. The trajectory of a concatenation is the trajectory of the first
    part followed by the trajectory of the second part, planned from the
    last pose of the first and without its row 0. *)
Theorem plan_traj_app (p o : vec) (cmds1 cmds2 : list string) :
  exists P1 O1 p' o' P2 O2,
    plan_traj p o cmds1 = Some (P1, O1)
    /\ last P1 = Some p' /\ last O1 = Some o'
    /\ plan_traj p' o' cmds2 = Some (P2, O2)
    /\ plan_traj p o (cmds1 ++ cmds2)%list
       = Some ((P1 ++ tail P2)%list, (O1 ++ tail O2)%list).
Proof.
  destruct (final_pose (p, o) cmds1) as [p' o'] eqn:Hfin.
  exists (poses (p, o) cmds1).*1, (poses (p, o) cmds1).*2, p', o',
    (poses (p', o') cmds2).*1, (poses (p', o') cmds2).*2.
  rewrite !plan_traj_poses, !fmap_last, poses_last, Hfin, poses_app, Hfin.
  rewrite !fmap_app. repeat split.
  all: repeat f_equal; by destruct (poses (p', o') cmds2).
Qed.

(** X2. Four left turns, and four right turns, planned from a pose whose
    numbers are below 2^53 in magnitude give back the orientation and
    never change the position; two left turns and two right turns both
    give the opposite orientation. *)
Theorem plan_traj_four_turns (p o : vec) (c : string) :
  c = "L" \/ c = "R" -> small53_vec p -> small53_vec o ->
  exists P O, plan_traj p o [c; c; c; c] = Some (P, O)
    /\ P = [p; p; p; p; p]
    /\ O !! 4 = Some o
    /\ O !! 2 = Some (- o.1, - o.2)%Z.
Proof.
  intros Hc _ _. eexists _, _. split; [apply plan_traj_poses|].
  destruct o as [x y].
  destruct Hc as [-> | ->]; simpl; unfold dot; simpl;
    (split; [done|]); split; do 2 f_equal; lia.
Qed.

(** X3. Move, turn twice the same way, move: the position is the start
    position again and the orientation is the opposite one, for every
    start pose whose numbers, and whose position after the first move,
    are below 2^53 in magnitude. *)
Theorem plan_traj_there_and_back (p o : vec) (c : string) :
  c = "L" \/ c = "R" ->
  small53_vec p -> small53_vec o -> small53_vec (vadd p o) ->
  exists P O, plan_traj p o ["M"; c; c; "M"] = Some (P, O)
    /\ P !! 1 = Some (vadd p o)
    /\ last P = Some p
    /\ last O = Some (- o.1, - o.2)%Z.
Proof.
  intros Hc _ _ _. eexists _, _. split; [apply plan_traj_poses|].
  destruct o as [x y], p as [a b].
  destruct Hc as [-> | ->]; simpl; unfold dot, vadd; simpl;
    (split; [done|]); split; do 2 f_equal; lia.
Qed.

Lemma transition_near c s :
  canonical s.2 ->
  (Z.abs ((transition c s).1.1 - s.1.1) + Z.abs ((transition c s).1.2 - s.1.2)
   <= 1)%Z.
Proof.
  destruct s as [[a b] o]. unfold transition, canonical. simpl. intros Ho.
  destruct (String.eqb c "L"); [|destruct (String.eqb c "R")]; simpl;
    destruct Ho as [-> | [-> | [-> | ->]]]; simpl; lia.
Qed.

Lemma poses_near cmds : forall s i q,
  canonical s.2 -> poses s cmds !! i = Some q ->
  (Z.abs (q.1.1 - s.1.1) + Z.abs (q.1.2 - s.1.2) <= Z.of_nat i)%Z.
Proof.
  induction cmds as [|c cmds IH]; intros s i q Hs Hq.
  - destruct i; [|done]. injection Hq as <-. rewrite !Z.sub_diag. simpl. lia.
  - destruct i as [|i]; simpl in Hq.
    + injection Hq as <-. rewrite !Z.sub_diag. simpl. lia.
    + pose proof (IH _ _ _ (transition_canonical c s Hs) Hq) as Hd.
      pose proof (transition_near c s Hs) as Hn.
      destruct q as [[qx qy] qo], s as [[sx sy] so],
        (transition c (sx, sy, so)) as [[tx ty] to].
      simpl in *. lia.
Qed.

(** X4. From a compass orientation, the position at step [i] is within
    [i] unit steps of the start position (sum of the two coordinate
    distances), when the start coordinates are further than the number of
    commands below 2^53 in magnitude. *)
Theorem plan_traj_reach (p o : vec) (cmds : list string) :
  canonical o ->
  (Z.abs p.1 + Z.of_nat (length cmds) < 2 ^ 53)%Z ->
  (Z.abs p.2 + Z.of_nat (length cmds) < 2 ^ 53)%Z ->
  exists P O, plan_traj p o cmds = Some (P, O)
    /\ forall i q, P !! i = Some q ->
       (Z.abs (q.1 - p.1) + Z.abs (q.2 - p.2) <= Z.of_nat i)%Z.
Proof.
  intros Ho _ _. eexists _, _. split; [apply plan_traj_poses|].
  intros i q Hq. rewrite list_lookup_fmap in Hq.
  destruct (poses (p, o) cmds !! i) as [[q' o']|] eqn:Hi; [|done].
  injection Hq as <-. apply (poses_near cmds (p, o) i (q', o') Ho Hi).
Qed.

End PlannerMore.

Lemma plan_traj_four_turns_witness :
  exists P O, Controller.plan_traj (3, 3)%Z east ["R"; "R"; "R"; "R"] = Some (P, O)
    /\ O !! 4 = Some east.
Proof.
  destruct (plan_traj_four_turns (3, 3)%Z east "R") as (P & O & H & _ & H4 & _).
  - right. reflexivity.
  - small53_tac.
  - small53_tac.
  - exists P, O. split; [exact H | exact H4].
Defined.

Lemma plan_traj_there_and_back_witness :
  exists P O, Controller.plan_traj (1, 2)%Z north ["M"; "L"; "L"; "M"] = Some (P, O)
    /\ last P = Some (1, 2)%Z.
Proof.
  destruct (plan_traj_there_and_back (1, 2)%Z north "L")
    as (P & O & H & _ & Hl & _).
  - left. reflexivity.
  - small53_tac.
  - small53_tac.
  - small53_tac.
  - exists P, O. split; [exact H | exact Hl].
Defined.

Lemma plan_traj_reach_witness :
  exists P O, Controller.plan_traj (1, 2)%Z north ["M"; "M"] = Some (P, O)
    /\ forall i q, P !! i = Some q ->
       (Z.abs (q.1 - 1) + Z.abs (q.2 - 2) <= Z.of_nat i)%Z.
Proof.
  apply (plan_traj_reach (1, 2)%Z north ["M"; "M"]);
    [left; reflexivity | simpl; lia | simpl; lia].
Defined.

(** * More on the orientation codec *)

Section CodecMore.

Import Controller.

Lemma orivec2char_canonical v :
  canonical v ->
  exists ch, orivec2char v = Returns (Some ch)
             /\ orichar2vec ch = Returns (Some v).
Proof.
  intros [-> | [-> | [-> | ->]]];
    [exists "N" | exists "E" | exists "S" | exists "W"]; by split.
Qed.

Lemma all_eq_true v w : all_eq v w = true <-> v = w.
Proof.
  destruct v as [a b], w as [c d]. unfold all_eq. simpl.
  rewrite andb_true_iff, !Z.eqb_eq. split.
  - by intros [-> ->].
  - intros [= -> ->]. done.
Qed.

Lemma orivec2char_not_canonical v :
  ~ canonical v -> orivec2char v = Returns None.
Proof.
  intros Hv. unfold orivec2char.
  destruct (all_eq v (0, 1)%Z) eqn:HN.
  { exfalso. apply Hv. left. by apply all_eq_true. }
  destruct (all_eq v (1, 0)%Z) eqn:HE.
  { exfalso. apply Hv. right. left. by apply all_eq_true. }
  destruct (all_eq v (0, -1)%Z) eqn:HS.
  { exfalso. apply Hv. right. right. left. by apply all_eq_true. }
  destruct (all_eq v (-1, 0)%Z) eqn:HW.
  { exfalso. apply Hv. right. right. right. by apply all_eq_true. }
  done.
Qed.

Lemma canonical_dec v : canonical v \/ ~ canonical v.
Proof.
  unfold canonical, north, east, south, west.
  destruct (decide (v = (0, 1)%Z)); [by auto|].
  destruct (decide (v = (1, 0)%Z)); [by auto|].
  destruct (decide (v = (0, -1)%Z)); [by auto|].
  destruct (decide (v = (-1, 0)%Z)); [by auto 6|].
  right. intros [? | [? | [? | ?]]]; done.
Qed.

(** X5. [orivec2char] returns a letter exactly on the four compass
    vectors; on every other vector (a diagonal, a longer vector, zero) it
    returns Python's [None]; it raises on no vector. *)
Theorem orivec2char_letter_iff (vecOri : vec) :
  (canonical vecOri <-> exists ch, orivec2char vecOri = Returns (Some ch))
  /\ (~ canonical vecOri <-> orivec2char vecOri = Returns None)
  /\ (forall exn, orivec2char vecOri <> Raises exn).
Proof.
  destruct (canonical_dec vecOri) as [Hc | Hn].
  - destruct (orivec2char_canonical vecOri Hc) as (ch & Hch & _).
    rewrite Hch. repeat split; try done; eauto.
  - rewrite (orivec2char_not_canonical vecOri Hn). repeat split; try done.
    intros [ch Hch]. done.
Qed.

(** X6. Decoding then encoding: when [orichar2vec] returns a vector for a
    string, [orivec2char] returns that string for the vector. *)
Theorem codec_round_trip_char (chOri : string) (v : vec) :
  orichar2vec chOri = Returns (Some v) ->
  orivec2char v = Returns (Some chOri).
Proof.
  unfold orichar2vec.
  destruct (String.eqb_spec chOri "N") as [->|_]; [by intros [= <-]|].
  destruct (String.eqb_spec chOri "E") as [->|_]; [by intros [= <-]|].
  destruct (String.eqb_spec chOri "S") as [->|_]; [by intros [= <-]|].
  destruct (String.eqb_spec chOri "W") as [->|_]; [by intros [= <-]|].
  done.
Qed.

End CodecMore.

Lemma codec_round_trip_char_witness :
  Controller.orivec2char west = Returns (Some "W").
Proof. apply (codec_round_trip_char "W" west). reflexivity. Defined.

(** * The robot and the planner *)

Section RobotPlan.

Import Controller.

Lemma dot64_dot_canonical m o :
  m = rotMatCCW \/ m = rotMatCW -> canonical o -> dot64 m o = dot m o.
Proof.
  unfold canonical.
  intros [-> | ->] [-> | [-> | [-> | ->]]]; vm_compute; auto.
Qed.

Lemma vadd64_vadd p o : int64_vec (vadd p o) -> vadd64 p o = vadd p o.
Proof.
  intros [H1 H2]. unfold vadd64, vadd, add64 in *. simpl in *.
  by rewrite !wrap64_id.
Qed.

Lemma receive_cmd_transition r c :
  canonical (Robot.ori r) ->
  int64_vec (transition c (Robot.pos r, Robot.ori r)).1 ->
  (Robot.pos (Robot.receive_cmd r c).1, Robot.ori (Robot.receive_cmd r c).1)
  = transition c (Robot.pos r, Robot.ori r).
Proof.
  intros Ho. unfold Robot.receive_cmd, Robot.rotate, Robot.move, transition.
  destruct (String.eqb c "L"); simpl.
  - intros _. rewrite dot64_dot_canonical; auto.
  - destruct (String.eqb c "R"); simpl.
    + intros _. rewrite dot64_dot_canonical; auto.
    + intros Hp. by rewrite vadd64_vadd.
Qed.

Lemma session_poses cmds : forall r,
  canonical (Robot.ori r) ->
  Forall int64_vec (poses (Robot.pos r, Robot.ori r) cmds).*1 ->
  (fun r' => (Robot.pos r', Robot.ori r')) <$> Robot.session r cmds
  = poses (Robot.pos r, Robot.ori r) cmds.
Proof.
  induction cmds as [|c cmds IH]; intros r Ho Hall; [done|].
  simpl in *. f_equal. apply Forall_cons_1 in Hall as [_ Hall].
  assert (Hnext : int64_vec (transition c (Robot.pos r, Robot.ori r)).1).
  { destruct cmds; simpl in Hall; by apply Forall_cons_1 in Hall as [? _]. }
  rewrite <- (receive_cmd_transition r c Ho Hnext) in Hall |- *.
  apply IH; [by apply receive_cmd_canonical | done].
Qed.

Lemma session_last r cmds :
  last (Robot.session r cmds) = Some (session_end r cmds).
Proof.
  revert r. induction cmds as [|c cmds IH]; intros r; [done|].
  simpl. rewrite <- IH. by destruct cmds.
Qed.

Lemma small53_int64 z : small53 z -> int64 z.
Proof. unfold small53, int64. lia. Qed.

Lemma small53_vec_int64 v : small53_vec v -> int64_vec v.
Proof. intros [H1 H2]. split; by apply small53_int64. Qed.

(** X7. A robot that starts on a compass orientation and receives the
    commands one by one goes through the poses that [plan_traj] plans
    from its pose, provided the planned coordinates are below 2^53 in
    magnitude: the float64 rows of the planner are then exact, and the
    int64 coordinates of the robot do not wrap around. *)
Theorem session_follows_plan (r : Robot.robot) (cmds : list string) :
  canonical (Robot.ori r) ->
  exists P O, plan_traj (Robot.pos r) (Robot.ori r) cmds = Some (P, O)
    /\ (Forall small53_vec P ->
        Robot.pos <$> Robot.session r cmds = P
        /\ Robot.ori <$> Robot.session r cmds = O).
Proof.
  intros Ho. eexists _, _. split; [apply plan_traj_poses|].
  intros Hsmall.
  assert (Hall : Forall int64_vec (poses (Robot.pos r, Robot.ori r) cmds).*1).
  { eapply Forall_impl; [exact Hsmall|]. apply small53_vec_int64. }
  rewrite <- (session_poses cmds r Ho Hall).
  rewrite <- !list_fmap_compose. done.
Qed.

End RobotPlan.

Lemma session_follows_plan_witness :
  exists P O,
    Controller.plan_traj (1, 2)%Z north ["M"; "R"] = Some (P, O)
    /\ (Forall small53_vec P ->
        Robot.pos <$> Robot.session
                        {| Robot.pos := (1, 2)%Z; Robot.ori := north |}
                        ["M"; "R"] = P
        /\ Robot.ori <$> Robot.session
                           {| Robot.pos := (1, 2)%Z; Robot.ori := north |}
                           ["M"; "R"] = O).
Proof.
  apply (session_follows_plan {| Robot.pos := (1, 2)%Z; Robot.ori := north |}
           ["M"; "R"]).
  left. reflexivity.
Defined.

(** * The checks of a scenario *)

Section Scenario_checks.

Import Controller.

Lemma is_on_table_true pos ts :
  is_on_table pos ts = true
  <-> (0 <= pos.1 <= ts.1 /\ 0 <= pos.2 <= ts.2)%Z.
Proof.
  unfold is_on_table. rewrite !andb_true_iff, !Z.leb_le, !Z.geb_le. lia.
Qed.

Lemma forallb_Forall {A} (f : A -> bool) l :
  forallb f l = true <-> Forall (fun x => f x = true) l.
Proof.
  induction l as [|x l IH]; simpl.
  - split; [by constructor | done].
  - rewrite andb_true_iff, IH. split.
    + intros [? ?]. by constructor.
    + intros H. by apply Forall_cons_1 in H.
Qed.

Lemma on_table_loop_drop arr ts m : forall k,
  k + m = length arr ->
  on_table_loop (seq k m) arr ts
  = Some (forallb (fun q => is_on_table q ts) (drop k arr)).
Proof.
  induction m as [|m IH]; intros k Hk; cbn [seq on_table_loop].
  - by rewrite drop_ge by lia.
  - destruct (lookup_lt_is_Some_2 arr k ltac:(lia)) as [q Hq].
    rewrite Hq, (drop_S _ _ _ Hq). simpl.
    destruct (is_on_table q ts); simpl; [|done].
    apply IH. lia.
Qed.

Lemma on_table_loop_all arr ts :
  on_table_loop (seq 0 (length arr)) arr ts
  = Some (forallb (fun q => is_on_table q ts) arr).
Proof. by rewrite (on_table_loop_drop arr ts (length arr) 0). Qed.

(** The value of [is_input_valid], from the two planned trajectories. *)
Lemma is_input_valid_eq ts p1 o1 p2 o2 c1 c2 :
  is_input_valid ts p1 o1 p2 o2 c1 c2
  = Some (if negb (forallb (fun q => is_on_table q ts) (poses (p1, o1) c1).*1)
          then ([msg_robot1_off], false)
          else if negb (forallb (fun q => is_on_table q ts)
                          (poses (p2, o2) c2).*1)
               then ([msg_robot2_off], false)
               else ([], true)).
Proof.
  unfold is_input_valid. rewrite !plan_traj_poses. simpl.
  rewrite !on_table_loop_all. simpl.
  destruct (forallb _ (poses (p1, o1) c1).*1); simpl; [|done].
  by destruct (forallb _ (poses (p2, o2) c2).*1).
Qed.


Lemma poses_on_table ts p o cmds :
  canonical o ->
  (Z.of_nat (length cmds) <= p.1 <= ts.1 - Z.of_nat (length cmds))%Z ->
  (Z.of_nat (length cmds) <= p.2 <= ts.2 - Z.of_nat (length cmds))%Z ->
  forallb (fun q => is_on_table q ts) (poses (p, o) cmds).*1 = true.
Proof.
  intros Ho Hx Hy. apply forallb_Forall, Forall_lookup_2. intros i q Hq.
  rewrite list_lookup_fmap in Hq.
  destruct (poses (p, o) cmds !! i) as [[q' o']|] eqn:Hi; [|done].
  injection Hq as <-.
  pose proof (lookup_lt_Some _ _ _ Hi) as Hlt. rewrite poses_length in Hlt.
  pose proof (poses_near cmds (p, o) i (q', o') Ho Hi) as Hd. simpl in Hd.
  apply is_on_table_true. lia.
Qed.

(** X9. On a table whose two sizes are below 2^53, two robots that start
    on compass orientations and at least as far from every edge of the
    table as they have commands pass the checks: [is_input_valid] prints
    nothing and returns True. *)
Theorem is_input_valid_margin (ts p1 o1 p2 o2 : vec) (c1 c2 : list string) :
  (ts.1 < 2 ^ 53)%Z -> (ts.2 < 2 ^ 53)%Z ->
  canonical o1 -> canonical o2 ->
  (Z.of_nat (length c1) <= p1.1 <= ts.1 - Z.of_nat (length c1))%Z ->
  (Z.of_nat (length c1) <= p1.2 <= ts.2 - Z.of_nat (length c1))%Z ->
  (Z.of_nat (length c2) <= p2.1 <= ts.1 - Z.of_nat (length c2))%Z ->
  (Z.of_nat (length c2) <= p2.2 <= ts.2 - Z.of_nat (length c2))%Z ->
  is_input_valid ts p1 o1 p2 o2 c1 c2 = Some ([], true).
Proof.
  intros _ _ Ho1 Ho2 Hx1 Hy1 Hx2 Hy2. rewrite is_input_valid_eq.
  by rewrite !poses_on_table.
Qed.

End Scenario_checks.

Lemma is_input_valid_margin_witness :
  is_input_valid (5, 5)%Z (2, 2)%Z north (3, 3)%Z east
    ["M"; "L"] ["R"; "M"] = Some ([], true).
Proof.
  apply is_input_valid_margin; first [by left | by (right; left) | simpl; lia].
Defined.

(** * The transmission of the commands *)

Section Transmission.

Import Controller Instance.

Lemma send_loop_drop arr1 arr2 m : forall k r1 r2,
  k + m = length arr1 -> length arr2 = length arr1 ->
  send_loop (seq k m) arr1 arr2 r1 r2
  = Some (session_end r1 (List.filter truthy (drop k arr1)),
          session_end r2 (List.filter truthy (drop k arr2)), true).
Proof.
  induction m as [|m IH]; intros k r1 r2 Hk Hlen; cbn [seq send_loop].
  - by rewrite !drop_ge by lia.
  - destruct (lookup_lt_is_Some_2 arr1 k ltac:(lia)) as [c1 Hc1].
    destruct (lookup_lt_is_Some_2 arr2 k ltac:(lia)) as [c2 Hc2].
    rewrite Hc1, Hc2, (drop_S _ _ _ Hc1), (drop_S _ _ _ Hc2).
    cbn [mbind option_bind List.filter].
    destruct (truthy c1), (truthy c2); cbn [Robot.receive_cmd negb];
      rewrite IH by lia; reflexivity.
Qed.

Lemma length_np_empty_str n mem : length (np_empty_str n mem) = n.
Proof. unfold np_empty_str. by rewrite length_fmap, length_seq. Qed.

(** The value of [send_command]: each robot ends as if it had received,
    alone and in order, the entries of its padded array that are not
    empty. *)
Lemma send_command_eq self mem1 mem2 :
  send_command self mem1 mem2
  = Some ({| tableSize := tableSize self;
             robot1 := session_end (robot1 self)
               (List.filter truthy
                  ((trunc1 <$> cmd1 self)
                   ++ drop (length (cmd1 self))
                        (np_empty_str
                           (Nat.max (length (cmd1 self)) (length (cmd2 self)))
                           mem1))%list);
             robot2 := session_end (robot2 self)
               (List.filter truthy
                  ((trunc1 <$> cmd2 self)
                   ++ drop (length (cmd2 self))
                        (np_empty_str
                           (Nat.max (length (cmd1 self)) (length (cmd2 self)))
                           mem2))%list);
             cmd1 := cmd1 self; cmd2 := cmd2 self |}, true).
Proof.
  unfold send_command, assign_prefix.
  rewrite !length_np_empty_str, !decide_True by lia.
  cbn [mbind option_bind].
  set (n := Nat.max (length (cmd1 self)) (length (cmd2 self))).
  rewrite (send_loop_drop _ _ n 0); [done | |];
    rewrite !length_app, !length_fmap, !length_drop, !length_np_empty_str;
    lia.
Qed.

(** X10. [send_command] always returns True and changes nothing but the
    two robots.  The interleaving does not matter: each robot ends in the
    state it reaches by receiving, alone and in order, the non-empty
    entries of its own array, which are its commands cut to their first
    character, followed by whatever [np.empty] left in the padding. *)
Theorem send_command_robots_independent (self : controller)
    (mem1 mem2 : nat -> string) :
  exists self', send_command self mem1 mem2 = Some (self', true)
    /\ tableSize self' = tableSize self
    /\ cmd1 self' = cmd1 self /\ cmd2 self' = cmd2 self
    /\ robot1 self'
       = session_end (robot1 self)
           (List.filter truthy
              ((trunc1 <$> cmd1 self)
               ++ drop (length (cmd1 self))
                    (np_empty_str
                       (Nat.max (length (cmd1 self)) (length (cmd2 self)))
                       mem1))%list)
    /\ robot2 self'
       = session_end (robot2 self)
           (List.filter truthy
              ((trunc1 <$> cmd2 self)
               ++ drop (length (cmd2 self))
                    (np_empty_str
                       (Nat.max (length (cmd1 self)) (length (cmd2 self)))
                       mem2))%list).
Proof. eexists. split; [apply send_command_eq|]. by repeat split. Qed.

Lemma trunc1_append d rest :
  d = "L" \/ d = "R" -> trunc1 (d ++ rest) = d.
Proof. by intros [-> | ->]. Qed.

Lemma append_neq d rest :
  d = "L" \/ d = "R" -> rest <> "" -> d ++ rest <> "L" /\ d ++ rest <> "R".
Proof.
  intros Hd Hrest. destruct rest as [|a rest]; [done|].
  by destruct Hd as [-> | ->].
Qed.

(** X11. A command of several characters that begins with 'L' or 'R' is
    a move for [plan_traj] (seen in a trajectory whose numbers are below
    2^53 in magnitude) and for [receive_cmd], but [send_command] cuts it
    to its first character and rotates the robot instead. *)
Theorem send_command_truncates (self : controller)
    (mem1 mem2 : nat -> string) (d rest : string) :
  d = "L" \/ d = "R" -> rest <> "" ->
  cmd1 self = [d ++ rest] -> cmd2 self = [] ->
  (exists self', send_command self mem1 mem2 = Some (self', true)
     /\ robot1 self' = (Robot.rotate (robot1 self) d).1)
  /\ Robot.receive_cmd (robot1 self) (d ++ rest)
     = ((Robot.move (robot1 self)).1, true)
  /\ exists P O,
       plan_traj (Robot.pos (robot1 self)) (Robot.ori (robot1 self))
         [d ++ rest] = Some (P, O)
       /\ (Forall small53_vec P -> Forall small53_vec O ->
           P !! 1 = Some (vadd (Robot.pos (robot1 self))
                            (Robot.ori (robot1 self)))
           /\ O !! 1 = Some (Robot.ori (robot1 self))).
Proof.
  intros Hd Hrest H1 H2.
  destruct (append_neq d rest Hd Hrest) as [HL HR].
  split; [|split].
  - eexists. split; [apply send_command_eq|]. simpl.
    rewrite H1, H2. simpl. rewrite (trunc1_append d rest Hd).
    by destruct Hd as [-> | ->].
  - unfold Robot.receive_cmd.
    apply String.eqb_neq in HL, HR. by rewrite HL, HR.
  - eexists _, _. split; [apply plan_traj_poses|]. intros _ _. simpl.
    by rewrite transition_other.
Qed.

End Transmission.

Lemma send_command_truncates_witness :
  exists self',
    Instance.send_command
      {| Instance.tableSize := (5, 5)%Z;
         Instance.robot1 := {| Robot.pos := (1, 2)%Z; Robot.ori := north |};
         Instance.robot2 := {| Robot.pos := (3, 3)%Z; Robot.ori := east |};
         Instance.cmd1 := ["LM"]; Instance.cmd2 := [] |}
      (fun _ => "") (fun _ => "") = Some (self', true)
    /\ Instance.robot1 self' = {| Robot.pos := (1, 2)%Z; Robot.ori := west |}.
Proof.
  destruct (send_command_truncates
              {| Instance.tableSize := (5, 5)%Z;
                 Instance.robot1 := {| Robot.pos := (1, 2)%Z; Robot.ori := north |};
                 Instance.robot2 := {| Robot.pos := (3, 3)%Z; Robot.ori := east |};
                 Instance.cmd1 := ["LM"]; Instance.cmd2 := [] |}
              (fun _ => "") (fun _ => "") "L" "M")
    as [(self' & Hsend & Hr1) _]; [by left | discriminate | reflexivity..|].
  exists self'. split; [exact Hsend | exact Hr1].
Defined.

(** * A validated scenario *)

Section Validated.

Import Controller Instance.

Lemma filter_truthy_single cmds :
  Forall (fun c => String.length c = 1) cmds ->
  List.filter truthy (trunc1 <$> cmds) = cmds.
Proof.
  induction 1 as [|c cmds Hc _ IH]; [done|].
  destruct c as [|a [|b c]]; try done. simpl. f_equal. exact IH.
Qed.

Lemma filter_truthy_blank mem m : forall k,
  (forall i, k <= i < k + m -> mem i = "") ->
  List.filter truthy ((fun i => trunc1 (mem i)) <$> seq k m) = [].
Proof.
  induction m as [|m IH]; intros k Hmem; [done|].
  simpl. rewrite (Hmem k) by lia. simpl. apply IH. intros i Hi.
  apply Hmem. lia.
Qed.

Lemma filter_truthy_padded cmds n mem :
  Forall (fun c => String.length c = 1) cmds ->
  (forall i, length cmds <= i < n -> mem i = "") ->
  List.filter truthy
    ((trunc1 <$> cmds) ++ drop (length cmds) (np_empty_str n mem))%list
  = cmds.
Proof.
  intros Hc Hmem. rewrite List.filter_app, filter_truthy_single by done.
  unfold np_empty_str. rewrite <- fmap_drop, drop_seq.
  rewrite filter_truthy_blank; [by rewrite app_nil_r|].
  intros i Hi. apply Hmem. lia.
Qed.

Lemma on_table_small53 ts q :
  (ts.1 < 2 ^ 53)%Z -> (ts.2 < 2 ^ 53)%Z ->
  is_on_table q ts = true -> int64_vec q.
Proof.
  intros H1 H2 Hq. apply is_on_table_true in Hq.
  unfold int64_vec, int64. lia.
Qed.

(** A robot whose planned positions are all on the table ends at the last
    planned pose, on the table. *)
Lemma session_end_planned ts r cmds :
  canonical (Robot.ori r) -> (ts.1 < 2 ^ 53)%Z -> (ts.2 < 2 ^ 53)%Z ->
  forallb (fun q => is_on_table q ts)
    (poses (Robot.pos r, Robot.ori r) cmds).*1 = true ->
  (Robot.pos (session_end r cmds), Robot.ori (session_end r cmds))
  = final_pose (Robot.pos r, Robot.ori r) cmds
  /\ is_on_table (Robot.pos (session_end r cmds)) ts = true.
Proof.
  intros Ho Hts1 Hts2 Hall. apply forallb_Forall in Hall.
  assert (Hint : Forall int64_vec (poses (Robot.pos r, Robot.ori r) cmds).*1).
  { eapply Forall_impl; [exact Hall|]. intros q. by apply on_table_small53. }
  pose proof (session_poses cmds r Ho Hint) as Hs.
  apply (f_equal last) in Hs.
  rewrite fmap_last, session_last, poses_last in Hs. simpl in Hs.
  injection Hs as Hs. split; [exact Hs|].
  pose proof (poses_last (Robot.pos r, Robot.ori r) cmds) as Hl.
  apply (f_equal (fmap fst)) in Hl. rewrite <- fmap_last in Hl.
  rewrite <- Hs in Hl. simpl in Hl.
  rewrite Forall_forall in Hall. apply Hall.
  by apply last_Some_elem_of.
Qed.

(** X12. On a table whose two sizes are below 2^53, when [is_input_valid]
    returns True for the start poses and the commands of a controller
    whose robots face compass orientations, whose commands are single
    characters and whose arrays from [np.empty] are blank where they
    pad, [send_command] leaves each robot at the last pose planned for
    it, and that position is on the table. *)
Theorem validated_scenario_ends_on_table (self : controller)
    (mem1 mem2 : nat -> string) (msgs : list string) :
  canonical (Robot.ori (robot1 self)) ->
  canonical (Robot.ori (robot2 self)) ->
  ((tableSize self).1 < 2 ^ 53)%Z -> ((tableSize self).2 < 2 ^ 53)%Z ->
  Forall (fun c => String.length c = 1) (cmd1 self) ->
  Forall (fun c => String.length c = 1) (cmd2 self) ->
  (forall i, length (cmd1 self) <= i < length (cmd2 self) -> mem1 i = "") ->
  (forall i, length (cmd2 self) <= i < length (cmd1 self) -> mem2 i = "") ->
  is_input_valid (tableSize self)
    (Robot.pos (robot1 self)) (Robot.ori (robot1 self))
    (Robot.pos (robot2 self)) (Robot.ori (robot2 self))
    (cmd1 self) (cmd2 self) = Some (msgs, true) ->
  exists self', send_command self mem1 mem2 = Some (self', true)
    /\ (Robot.pos (robot1 self'), Robot.ori (robot1 self'))
       = final_pose (Robot.pos (robot1 self), Robot.ori (robot1 self))
           (cmd1 self)
    /\ (Robot.pos (robot2 self'), Robot.ori (robot2 self'))
       = final_pose (Robot.pos (robot2 self), Robot.ori (robot2 self))
           (cmd2 self)
    /\ is_on_table (Robot.pos (robot1 self')) (tableSize self) = true
    /\ is_on_table (Robot.pos (robot2 self')) (tableSize self) = true.
Proof.
  intros Ho1 Ho2 Hts1 Hts2 Hc1 Hc2 Hm1 Hm2 Hvalid.
  rewrite is_input_valid_eq in Hvalid.
  destruct (forallb _ (poses (_, Robot.ori (robot1 self)) _).*1) eqn:E1;
    [|done].
  destruct (forallb _ (poses (_, Robot.ori (robot2 self)) _).*1) eqn:E2;
    [|done].
  destruct (session_end_planned _ _ _ Ho1 Hts1 Hts2 E1) as [Hp1 Ht1].
  destruct (session_end_planned _ _ _ Ho2 Hts1 Hts2 E2) as [Hp2 Ht2].
  eexists. split; [apply send_command_eq|]. simpl.
  rewrite !filter_truthy_padded by (done || intros; (apply Hm1 || apply Hm2); lia).
  done.
Qed.

End Validated.

Lemma validated_scenario_ends_on_table_witness :
  exists self',
    Instance.send_command
      {| Instance.tableSize := (5, 5)%Z;
         Instance.robot1 := {| Robot.pos := (1, 2)%Z; Robot.ori := north |};
         Instance.robot2 := {| Robot.pos := (3, 3)%Z; Robot.ori := east |};
         Instance.cmd1 := ["L"; "M"]; Instance.cmd2 := ["M"] |}
      (fun _ => "") (fun _ => "") = Some (self', true)
    /\ Controller.is_on_table (Robot.pos (Instance.robot1 self')) (5, 5)%Z = true
    /\ Controller.is_on_table (Robot.pos (Instance.robot2 self')) (5, 5)%Z = true.
Proof.
  destruct (validated_scenario_ends_on_table
              {| Instance.tableSize := (5, 5)%Z;
                 Instance.robot1 := {| Robot.pos := (1, 2)%Z; Robot.ori := north |};
                 Instance.robot2 := {| Robot.pos := (3, 3)%Z; Robot.ori := east |};
                 Instance.cmd1 := ["L"; "M"]; Instance.cmd2 := ["M"] |}
              (fun _ => "") (fun _ => "") [])
    as (self' & Hsend & _ & _ & H1 & H2).
  - left. reflexivity.
  - right. left. reflexivity.
  - simpl. lia.
  - simpl. lia.
  - repeat constructor.
  - repeat constructor.
  - intros i Hi. reflexivity.
  - intros i Hi. reflexivity.
  - vm_compute. reflexivity.
  - exists self'. split; [exact Hsend|]. split; [exact H1 | exact H2].
Defined.

(** * Printing the poses *)

Section Printing.

Import Controller Instance.

Lemma orivec2char_returns v : exists s, orivec2char v = Returns s.
Proof.
  unfold orivec2char.
  repeat (match goal with |- context [if ?b then _ else _] => destruct b end);
    eauto.
Qed.

Lemma print_posori_canonical self :
  canonical (Robot.ori (robot1 self)) ->
  canonical (Robot.ori (robot2 self)) ->
  exists s1 s2,
    orichar2vec s1 = Returns (Some (Robot.ori (robot1 self)))
    /\ orichar2vec s2 = Returns (Some (Robot.ori (robot2 self)))
    /\ print_posori self
       = ([posori_line "1" (robot1 self) s1;
           posori_line "2" (robot2 self) s2], Returns tt).
Proof.
  intros H1 H2. unfold print_posori.
  destruct (orivec2char_canonical _ H1) as (s1 & -> & Hs1).
  destruct (orivec2char_canonical _ H2) as (s2 & -> & Hs2).
  by exists s1, s2.
Qed.

(** X13. [print_posori] prints one line for each robot, with its two
    coordinates and the letter of its orientation, when both orientations
    are compass vectors.  When the orientation of robot 1 is not, it
    prints nothing and raises [TypeError]; when only that of robot 2 is
    not, it prints the line of robot 1 and then raises [TypeError]. *)
Theorem print_posori_outcome (self : controller) :
  (canonical (Robot.ori (robot1 self)) ->
   canonical (Robot.ori (robot2 self)) ->
   exists s1 s2,
     orichar2vec s1 = Returns (Some (Robot.ori (robot1 self)))
     /\ orichar2vec s2 = Returns (Some (Robot.ori (robot2 self)))
     /\ print_posori self
        = (["The position and orientation of robot 1 are: "
            ++ format_d (Robot.pos (robot1 self)).1 ++ " "
            ++ format_d (Robot.pos (robot1 self)).2 ++ " " ++ s1;
            "The position and orientation of robot 2 are: "
            ++ format_d (Robot.pos (robot2 self)).1 ++ " "
            ++ format_d (Robot.pos (robot2 self)).2 ++ " " ++ s2],
           Returns tt))
  /\ (~ canonical (Robot.ori (robot1 self)) ->
      print_posori self = ([], Raises "TypeError"))
  /\ (canonical (Robot.ori (robot1 self)) ->
      ~ canonical (Robot.ori (robot2 self)) ->
      exists s1, print_posori self
                 = ([posori_line "1" (robot1 self) s1], Raises "TypeError")).
Proof.
  split; [|split].
  - apply print_posori_canonical.
  - intros H1. unfold print_posori.
    rewrite (orivec2char_not_canonical _ H1).
    by destruct (orivec2char_returns (Robot.ori (robot2 self))) as [s2 ->].
  - intros H1 H2. unfold print_posori.
    destruct (orivec2char_canonical _ H1) as (s1 & -> & _).
    rewrite (orivec2char_not_canonical _ H2). by exists s1.
Qed.

Lemma session_end_canonical cmds : forall r,
  canonical (Robot.ori r) -> canonical (Robot.ori (session_end r cmds)).
Proof.
  induction cmds as [|c cmds IH]; intros r Hr; [done|].
  apply IH. by apply receive_cmd_canonical.
Qed.

(** X14. After [send_command] on two robots that face compass
    orientations, whatever the commands and whatever [np.empty] left in
    the padding, [print_posori] prints its two lines and raises
    nothing. *)
Theorem print_posori_after_send_command (self : controller)
    (mem1 mem2 : nat -> string) :
  canonical (Robot.ori (robot1 self)) ->
  canonical (Robot.ori (robot2 self)) ->
  exists self' l1 l2,
    send_command self mem1 mem2 = Some (self', true)
    /\ print_posori self' = ([l1; l2], Returns tt).
Proof.
  intros H1 H2. pose proof (send_command_eq self mem1 mem2) as Hs.
  match type of Hs with
  | _ = Some (?s', true) =>
      destruct (print_posori_canonical s') as (s1 & s2 & _ & _ & Hp);
        [simpl; by apply session_end_canonical..|];
      exists s'; eexists _, _; split; [exact Hs | exact Hp]
  end.
Qed.

End Printing.

Lemma print_posori_outcome_witness :
  Instance.print_posori
    {| Instance.tableSize := (5, 5)%Z;
       Instance.robot1 := {| Robot.pos := (1, 2)%Z; Robot.ori := (1, 1)%Z |};
       Instance.robot2 := {| Robot.pos := (3, 3)%Z; Robot.ori := east |};
       Instance.cmd1 := []; Instance.cmd2 := [] |}
  = ([], Raises "TypeError").
Proof.
  apply (proj1 (proj2 (print_posori_outcome _))).
  intros [H | [H | [H | H]]]; discriminate H.
Defined.

Lemma print_posori_after_send_command_witness :
  exists self' l1 l2,
    Instance.send_command
      {| Instance.tableSize := (5, 5)%Z;
         Instance.robot1 := {| Robot.pos := (1, 2)%Z; Robot.ori := north |};
         Instance.robot2 := {| Robot.pos := (3, 3)%Z; Robot.ori := east |};
         Instance.cmd1 := ["M"]; Instance.cmd2 := ["X"; "R"] |}
      (fun _ => "Z") (fun _ => "") = Some (self', true)
    /\ Instance.print_posori self' = ([l1; l2], Returns tt).
Proof.
  apply print_posori_after_send_command.
  - left. reflexivity.
  - right. left. reflexivity.
Defined.

(** * The float64 rows of the planner *)

Section Float64.

Import Controller.

Lemma f64_small z : (Z.abs z <= 2 ^ 53)%Z -> f64 z = z.
Proof.
  intros Hz. unfold f64.
  by rewrite (proj2 (Z.leb_le (Z.abs z) (2 ^ 53)) Hz).
Qed.

Lemma f64_small53 z : small53 z -> f64 z = z.
Proof. unfold small53. intros Hz. apply f64_small. lia. Qed.

(** Above 2^53 the rounded value keeps 53 bits, the first of which is
    set: it is not below 2^53. *)
Lemma f64_large z : (2 ^ 53 < Z.abs z)%Z -> (2 ^ 53 <= Z.abs (f64 z))%Z.
Proof.
  intros Hz. unfold f64.
  rewrite (proj2 (Z.leb_gt (Z.abs z) (2 ^ 53)) Hz).
  set (a := Z.abs z) in *.
  assert (Ha : (0 < a)%Z) by lia.
  assert (HL : (53 <= Z.log2 a)%Z).
  { change 53%Z with (Z.log2 (2 ^ 53)). apply Z.log2_le_mono. lia. }
  destruct (Z.log2_spec a Ha) as [Hlo _].
  set (e := (Z.log2 a - 52)%Z) in *.
  assert (He : (1 <= e)%Z) by (unfold e; lia).
  assert (Hpow : (2 ^ Z.log2 a = 2 ^ e * 2 ^ 52)%Z).
  { rewrite <- Z.pow_add_r by lia. f_equal. unfold e. lia. }
  assert (He2 : (2 <= 2 ^ e)%Z).
  { change 2%Z with (2 ^ 1)%Z at 1. apply Z.pow_le_mono_r; lia. }
  assert (Hq : (2 ^ 52 <= a / 2 ^ e)%Z).
  { apply Z.div_le_lower_bound; lia. }
  set (q := (a / 2 ^ e)%Z) in *.
  assert (Hk : forall k, (q <= k)%Z ->
                 (2 ^ 53 <= Z.abs (Z.sgn z * (k * 2 ^ e)))%Z).
  { intros k Hk. rewrite Z.abs_mul.
    assert (Hs : Z.abs (Z.sgn z) = 1%Z).
    { unfold a in Ha.
      destruct (Z.sgn_spec z) as [[? ->] | [[? ->] | [? ->]]]; lia. }
    rewrite Hs, Z.mul_1_l, Z.abs_eq by nia.
    change (2 ^ 53)%Z with (2 ^ 52 * 2)%Z. apply Z.mul_le_mono_nonneg; lia. }
  match goal with
  | |- context [if ?b then _ else _] => destruct b
  end; apply Hk; lia.
Qed.

Lemma f64_small53_inv z : small53 (f64 z) -> f64 z = z.
Proof.
  intros Hs. destruct (Z_le_gt_dec (Z.abs z) (2 ^ 53)) as [Hz | Hz].
  - by apply f64_small.
  - pose proof (f64_large z ltac:(lia)). unfold small53 in Hs. lia.
Qed.

Lemma dotf_small m o :
  m = rotMatCCW \/ m = rotMatCW -> small53_vec o -> dotf m o = dot m o.
Proof.
  destruct o as [x y]. intros Hm [Hx Hy]. unfold small53 in Hx, Hy.
  simpl in Hx, Hy.
  destruct Hm as [-> | ->]; unfold dotf, dot, rotMatCCW, rotMatCW; simpl fst;
    simpl snd;
    change (f64 0) with 0%Z; change (f64 1) with 1%Z;
    change (f64 (-1)) with (-1)%Z;
    rewrite !Z.mul_0_l, !Z.mul_1_l; change (f64 0) with 0%Z;
    repeat match goal with
      | |- context [f64 ?z] => rewrite (f64_small z) by lia
      end;
    reflexivity.
Qed.

Lemma transitionf_exact c s :
  small53_vec s.1 -> small53_vec s.2 -> small53_vec (transition c s).1 ->
  transitionf c s = transition c s.
Proof.
  intros Hp Ho. unfold transitionf, transition.
  destruct (String.eqb c "L"); [|destruct (String.eqb c "R")]; simpl.
  - intros _. rewrite dotf_small; auto.
  - intros _. rewrite dotf_small; auto.
  - intros [H1 H2]. unfold vaddf, vadd in *. simpl in *.
    by rewrite !f64_small53.
Qed.

Lemma transitionf_exact_inv c s :
  small53_vec s.1 -> small53_vec s.2 -> small53_vec (transitionf c s).1 ->
  transitionf c s = transition c s.
Proof.
  intros Hp Ho. unfold transitionf, transition.
  destruct (String.eqb c "L"); [|destruct (String.eqb c "R")]; simpl.
  - intros _. rewrite dotf_small; auto.
  - intros _. rewrite dotf_small; auto.
  - intros [H1 H2]. unfold vaddf, vadd in *. simpl in *.
    by rewrite !f64_small53_inv.
Qed.

Lemma poses_head s cmds : exists T, poses s cmds = s :: T.
Proof. destruct cmds; simpl; eauto. Qed.

Lemma posesf_head s cmds : exists T, posesf s cmds = s :: T.
Proof. destruct cmds; simpl; eauto. Qed.

Lemma posesf_exact cmds : forall s,
  Forall small53_vec (poses s cmds).*1 ->
  Forall small53_vec (poses s cmds).*2 ->
  posesf s cmds = poses s cmds.
Proof.
  induction cmds as [|c cmds IH]; intros s HP HO; [done|].
  simpl in *. apply Forall_cons_1 in HP as [Hp HP].
  apply Forall_cons_1 in HO as [Ho HO].
  assert (Hn : small53_vec (transition c s).1).
  { destruct (poses_head (transition c s) cmds) as [T HT].
    rewrite HT in HP. simpl in HP. by apply Forall_cons_1 in HP as [? _]. }
  rewrite (transitionf_exact c s Hp Ho Hn). f_equal. by apply IH.
Qed.

Lemma posesf_exact_inv cmds : forall s,
  Forall small53_vec (posesf s cmds).*1 ->
  Forall small53_vec (posesf s cmds).*2 ->
  posesf s cmds = poses s cmds.
Proof.
  induction cmds as [|c cmds IH]; intros s HP HO; [done|].
  simpl in *. apply Forall_cons_1 in HP as [Hp HP].
  apply Forall_cons_1 in HO as [Ho HO].
  assert (Hn : small53_vec (transitionf c s).1).
  { destruct (posesf_head (transitionf c s) cmds) as [T HT].
    rewrite HT in HP. simpl in HP. by apply Forall_cons_1 in HP as [? _]. }
  rewrite <- (transitionf_exact_inv c s Hp Ho Hn). f_equal. by apply IH.
Qed.

Lemma posesf_length s cmds : length (posesf s cmds) = length cmds + 1.
Proof.
  revert s. induction cmds as [|c cmds IH]; intros s; simpl; [done|].
  by rewrite IH.
Qed.

Lemma posesf_lookup_0 s cmds : posesf s cmds !! 0 = Some s.
Proof. by destruct cmds. Qed.

Lemma posesf_lookup_S s cmds i c q :
  cmds !! i = Some c -> posesf s cmds !! i = Some q ->
  posesf s cmds !! (i + 1) = Some (transitionf c q).
Proof.
  revert s i. induction cmds as [|c' cmds IH]; intros s i Hc Hq; [done|].
  destruct i as [|i]; simpl in *.
  - injection Hc as ->. injection Hq as ->. apply posesf_lookup_0.
  - by apply IH.
Qed.

Lemma plan_step_f64_transitionf cmds i c P O p o :
  cmds !! i = Some c -> P !! i = Some p -> O !! i = Some o ->
  i + 1 < length P -> i + 1 < length O ->
  plan_step_f64 cmds i (P, O) =
  Some (<[i + 1 := (transitionf c (p, o)).1]> P,
        <[i + 1 := (transitionf c (p, o)).2]> O).
Proof.
  intros Hc Hp Ho HP HO. unfold plan_step_f64, transitionf. rewrite Hc. simpl.
  destruct (String.eqb c "L"); [|destruct (String.eqb c "R")];
    rewrite Hp; simpl; rewrite ?Ho; simpl;
    rewrite !set_row_Some by done; simpl; rewrite ?Ho; simpl;
    rewrite ?set_row_Some by done; done.
Qed.

Lemma rows_upto_step_f64 s cmds k P O :
  k < length cmds -> rows_upto (posesf s cmds) k (P, O) ->
  exists st, plan_step_f64 cmds k (P, O) = Some st
             /\ rows_upto (posesf s cmds) (S k) st.
Proof.
  intros Hk (HP & HO & Hrows). simpl in HP, HO.
  pose proof (posesf_length s cmds) as Hlen.
  destruct (lookup_lt_is_Some_2 cmds k Hk) as [c Hc].
  destruct (lookup_lt_is_Some_2 (posesf s cmds) k ltac:(lia)) as [[p o] Hq].
  destruct (Hrows k (le_n k)) as [Hp Ho]. cbn [fst snd] in Hp, Ho.
  rewrite Hq in Hp, Ho. simpl in Hp, Ho.
  pose proof (posesf_lookup_S _ _ _ _ _ Hc Hq) as Hnext.
  eexists. split.
  { apply (plan_step_f64_transitionf cmds k c P O p o); auto; lia. }
  split; [|split]; simpl; rewrite ?length_insert; auto.
  intros j Hj. destruct (decide (j = k + 1)) as [->|Hne].
  - rewrite !list_lookup_insert_eq by lia. by rewrite Hnext.
  - rewrite !list_lookup_insert_ne by lia. apply Hrows. lia.
Qed.

Lemma rows_upto_loop_f64 s cmds m : forall k st,
  k + m = length cmds -> rows_upto (posesf s cmds) k st ->
  exists st', for_in (seq k m) (plan_step_f64 cmds) st = Some st'
              /\ rows_upto (posesf s cmds) (length cmds) st'.
Proof.
  induction m as [|m IH]; intros k [P O] Hkm Hinv; cbn [seq for_in].
  - exists (P, O). split; [done|]. by replace (length cmds) with k by lia.
  - destruct (rows_upto_step_f64 s cmds k P O) as (st & -> & Hst); [lia|done|].
    apply IH; [lia|done].
Qed.

(** [plan_traj_f64] always returns, and returns the rows of [posesf] from
    the converted start pose. *)
Lemma plan_traj_f64_posesf p o cmds :
  plan_traj_f64 p o cmds
  = Some ((posesf (vf64 p, vf64 o) cmds).*1, (posesf (vf64 p, vf64 o) cmds).*2).
Proof.
  unfold plan_traj_f64.
  rewrite !set_row_Some by (rewrite length_replicate; lia). simpl.
  pose proof (posesf_length (vf64 p, vf64 o) cmds) as Hlen.
  destruct (rows_upto_loop_f64 (vf64 p, vf64 o) cmds (length cmds) 0
              (<[0 := vf64 p]> (replicate (length cmds + 1) vzero),
               <[0 := vf64 o]> (replicate (length cmds + 1) vzero)))
    as ([P O] & -> & Hinv); [lia| |].
  - split; [|split]; simpl; rewrite ?length_insert, ?length_replicate; auto.
    intros j Hj. replace j with 0 by lia.
    rewrite !list_lookup_insert_eq by (rewrite length_replicate; lia).
    by rewrite posesf_lookup_0.
  - destruct (rows_upto_all (posesf (vf64 p, vf64 o) cmds) P O) as [-> ->];
      [|done].
    by replace (length (posesf (vf64 p, vf64 o) cmds) - 1)
      with (length cmds) by lia.
Qed.

Lemma vf64_small v : small53_vec v -> vf64 v = v.
Proof.
  destruct v as [x y]. intros [Hx Hy]. unfold vf64. simpl in *.
  by rewrite !f64_small53.
Qed.

Lemma vf64_small_inv v : small53_vec (vf64 v) -> vf64 v = v.
Proof.
  destruct v as [x y]. intros [Hx Hy]. unfold vf64 in *. simpl in *.
  by rewrite !f64_small53_inv.
Qed.

(** X16. From an int64 start pose, the planner on float64 rows and the
    planner in exact arithmetic both return, and they return the same
    two arrays as soon as the numbers of either result are all below 2^53
    in magnitude. *)
Theorem plan_traj_f64_agrees (p o : vec) (cmds : list string) :
  int64_vec p -> int64_vec o ->
  exists P O Pf Of,
    plan_traj p o cmds = Some (P, O)
    /\ plan_traj_f64 p o cmds = Some (Pf, Of)
    /\ (Forall small53_vec P -> Forall small53_vec O -> Pf = P /\ Of = O)
    /\ (Forall small53_vec Pf -> Forall small53_vec Of -> Pf = P /\ Of = O).
Proof.
  intros _ _.
  eexists _, _, _, _. split; [apply plan_traj_poses|].
  split; [apply plan_traj_f64_posesf|]. split.
  - intros HP HO.
    assert (Hp : small53_vec p).
    { destruct (poses_head (p, o) cmds) as [T HT]. rewrite HT in HP.
      by apply Forall_cons_1 in HP as [? _]. }
    assert (Ho : small53_vec o).
    { destruct (poses_head (p, o) cmds) as [T HT]. rewrite HT in HO.
      by apply Forall_cons_1 in HO as [? _]. }
    rewrite (vf64_small p Hp), (vf64_small o Ho).
    by rewrite (posesf_exact cmds (p, o) HP HO).
  - intros HP HO.
    assert (Hp : small53_vec (vf64 p)).
    { destruct (posesf_head (vf64 p, vf64 o) cmds) as [T HT]. rewrite HT in HP.
      by apply Forall_cons_1 in HP as [? _]. }
    assert (Ho : small53_vec (vf64 o)).
    { destruct (posesf_head (vf64 p, vf64 o) cmds) as [T HT]. rewrite HT in HO.
      by apply Forall_cons_1 in HO as [? _]. }
    rewrite (posesf_exact_inv cmds _ HP HO).
    by rewrite (vf64_small_inv p Hp), (vf64_small_inv o Ho).
Qed.

(** X17. At x = 2^53 the float64 planner no longer follows the robot: a
    move to the east leaves the planned x at 2^53, while the int64
    coordinate of a [Robot] at the same pose advances to 2^53 + 1. *)
Theorem plan_traj_f64_stalls (y : Z) :
  small53 y ->
  (exists P O, plan_traj_f64 (2 ^ 53, y)%Z east ["M"] = Some (P, O)
     /\ P = [(2 ^ 53, y)%Z; (2 ^ 53, y)%Z])
  /\ Robot.pos (Robot.receive_cmd
                  {| Robot.pos := (2 ^ 53, y)%Z; Robot.ori := east |} "M").1
     = (2 ^ 53 + 1, y)%Z.
Proof.
  intros Hy. split.
  - eexists _, _. split; [apply plan_traj_f64_posesf|].
    simpl. unfold vf64, vaddf. simpl.
    rewrite Z.add_0_r, !(f64_small53 y Hy). reflexivity.
  - simpl. unfold vadd64, add64. simpl. rewrite Z.add_0_r.
    rewrite (wrap64_id y) by (by apply small53_int64). reflexivity.
Qed.

End Float64.

Lemma plan_traj_f64_agrees_witness :
  exists P O Pf Of,
    Controller.plan_traj (1, 2)%Z north ["M"; "L"] = Some (P, O)
    /\ Controller.plan_traj_f64 (1, 2)%Z north ["M"; "L"] = Some (Pf, Of)
    /\ (Forall small53_vec P -> Forall small53_vec O -> Pf = P /\ Of = O)
    /\ (Forall small53_vec Pf -> Forall small53_vec Of -> Pf = P /\ Of = O).
Proof.
  apply (plan_traj_f64_agrees (1, 2)%Z north ["M"; "L"]);
    split; unfold int64; simpl; lia.
Defined.

Lemma plan_traj_f64_stalls_witness :
  exists P O, Controller.plan_traj_f64 (2 ^ 53, 7)%Z east ["M"] = Some (P, O)
    /\ P = [(2 ^ 53, 7)%Z; (2 ^ 53, 7)%Z].
Proof.
  destruct (plan_traj_f64_stalls 7) as [H _]; [small53_tac | exact H].
Defined.
